(** * Query executor base of kysely: plugin chains, execution and stack continuity

    A shallow embedding of [src/query-executor/query-executor-base.ts].

    JavaScript values that can be thrown live in a small value type; objects
    are references into a heap of property maps, so that the in-place update
    [err.stack += ...] of [extendStackTrace] and the identity of the re-thrown
    failure are both visible.  A property holds its value and whether it can
    be written: the properties of a frozen object, and an accessor with a
    getter only, cannot, and in a module (strict mode) writing one throws a
    [TypeError].
    Effectful code (plugins, connections, the connection provider, [async]
    methods) is written in a state-and-exception monad over a [world]; [await]
    is sequencing in that monad and a rejected promise is a thrown value.
    Operation nodes, query results and plugin sequences are immutable values,
    as their [readonly] types say. *)

From Stdlib Require Import String Ascii.
From stdpp Require Import base gmap strings list fin_maps.

Local Open Scope string_scope.

(** ** JavaScript values and the heap *)

Abbreviation loc := positive.

Inductive js_value : Type :=
| JUndefined
| JNull
| JBool (b : bool)
| JNumber (z : Z)
| JString (s : string)
| JObject (l : loc).

(** A property: the value read from it, and whether an assignment to it
    succeeds. *)
Record js_property : Type := Property {
  prop_value : js_value;
  prop_writable : bool
}.

(** The property an assignment or an object literal creates. *)
Definition data (v : js_value) : js_property := Property v true.

(** An object is its map of own properties. *)
Abbreviation js_object := (gmap string js_property).

(** The world: the object heap, what the runtime stores in the [stack]
    property of an [Error] constructed now with a given message ([None] when
    the runtime records no stack), and whatever else plugins, connections and
    providers act on. *)
Record world (U : Type) : Type := World {
  heap : gmap loc js_object;
  Error_stack : string -> option string;
  user : U
}.
Arguments World {U} _ _ _.
Arguments heap {U} _.
Arguments Error_stack {U} _.
Arguments user {U} _.

Definition set_heap {U} (h : gmap loc js_object) (w : world U) : world U :=
  World h (Error_stack w) (user w).

(** ** The monad of effectful code *)

Inductive outcome (A : Type) : Type :=
| Normal (a : A)
| Thrown (e : js_value).
Arguments Normal {A} _.
Arguments Thrown {A} _.

Definition M (U A : Type) : Type := world U -> outcome A * world U.

Definition ret {U A} (a : A) : M U A := fun w => (Normal a, w).

Definition throw {U A} (e : js_value) : M U A := fun w => (Thrown e, w).

Definition bind {U A B} (m : M U A) (k : A -> M U B) : M U B :=
  fun w =>
    match m w with
    | (Normal a, w') => k a w'
    | (Thrown e, w') => (Thrown e, w')
    end.

(** [try { body } catch (err) { handler }] *)
Definition try_catch {U A} (body : M U A) (handler : js_value -> M U A) : M U A :=
  fun w =>
    match body w with
    | (Normal a, w') => (Normal a, w')
    | (Thrown e, w') => handler e w'
    end.

Declare Scope js_scope.
Delimit Scope js_scope with js.
Notation "x <- m ;; k" := (bind m (fun x => k))
  (at level 100, m at next level, right associativity) : js_scope.
Local Open Scope js_scope.

(** ** Heap primitives *)

Definition fresh_loc (h : gmap loc js_object) : loc := fresh (dom h).

(** [new Error(message)]: a fresh object holding the message and, when the
    runtime records one, the captured stack. *)
Definition Error_object (message : string) (stack : option string) : js_object :=
  match stack with
  | Some s => <["stack" := data (JString s)]> {["message" := data (JString message)]}
  | None => {["message" := data (JString message)]}
  end.

Definition new_Error {U} (message : string) : M U loc :=
  fun w =>
    let l := fresh_loc (heap w) in
    (Normal l, set_heap (<[l := Error_object message (Error_stack w message)]> (heap w)) w).

(** [obj.prop], for an object reference; absent objects and absent
    properties read as [undefined]. *)
Definition get_prop {U} (l : loc) (prop : string) (w : world U) : js_value :=
  match heap w !! l with
  | Some o => default JUndefined (prop_value <$> o !! prop)
  | None => JUndefined
  end.

(** The message of the [TypeError] a refused assignment raises; the wording
    is the engine's. *)
Definition read_only_message (prop : string) : string :=
  "Cannot assign to read only property '" ++ prop ++ "'".

(** [new TypeError(message)] *)
Definition new_TypeError {U} (message : string) : M U loc :=
  fun w =>
    let l := fresh_loc (heap w) in
    (Normal l,
     set_heap (<[l := <["name" := data (JString "TypeError")]>
                         (Error_object message (Error_stack w message))]> (heap w)) w).

(** Whether [obj.prop = ...] is accepted: a property that is not there yet is
    created, an existing one must be writable. *)
Definition assignable (o : js_object) (prop : string) : bool :=
  match o !! prop with
  | Some p => prop_writable p
  | None => true
  end.

(** [obj.prop = v], in strict mode: a refused assignment throws a
    [TypeError]. *)
Definition set_prop {U} (l : loc) (prop : string) (v : js_value) : M U unit :=
  fun w =>
    let o := default ∅ (heap w !! l) in
    if assignable o prop
    then (Normal tt, set_heap (<[l := <[prop := data v]> o]> (heap w)) w)
    else (err <- new_TypeError (read_only_message prop) ;; throw (JObject err)) w.

(** ** Strings: [split], [slice(1)], [join] *)

Definition newline : ascii := "010"%char.
Definition nl : string := String newline EmptyString.

(** [s.split(sep)] for a one-character separator. *)
Fixpoint split (sep : ascii) (s : string) : list string :=
  match s with
  | EmptyString => [EmptyString]
  | String c rest =>
      if Ascii.eqb c sep then EmptyString :: split sep rest
      else match split sep rest with
           | [] => [String c EmptyString]
           | first :: others => String c first :: others
           end
  end.

(** [parts.join(sep)] *)
Definition join (sep : string) (parts : list string) : string :=
  String.concat sep parts.

(** [parts.slice(1)] *)
Definition slice1 {A} (parts : list A) : list A := drop 1 parts.

(** Number of lines of a trace. *)
Definition line_count (s : string) : nat := length (split newline s).

(** [typeof v === 'object' && v !== null] and [typeof v === 'string'], the
    two tests [isStackHolder] imports from [util/object-utils.js]. *)
Definition isObject (v : js_value) : bool :=
  match v with JObject _ => true | _ => false end.

Definition isString (v : js_value) : bool :=
  match v with JString _ => true | _ => false end.

(** JavaScript truthiness, as used by [!stackError.stack]. *)
Definition truthy (v : js_value) : bool :=
  match v with
  | JUndefined | JNull => false
  | JBool b => b
  | JNumber z => negb (Z.eqb z 0)
  | JString s => negb (String.eqb s "")
  | JObject _ => true
  end.

(** Member read [v.prop]: only objects carry the properties read here. *)
Definition member {U} (v : js_value) (prop : string) (w : world U) : js_value :=
  match v with
  | JObject l => get_prop l prop w
  | _ => JUndefined
  end.

Definition get {U} (v : js_value) (prop : string) : M U js_value :=
  fun w => (Normal (member v prop w), w).

(** Member write [v.prop = x], in strict mode: on an object reference the
    assignment, on anything else a [TypeError]. *)
Definition put {U} (v : js_value) (prop : string) (x : js_value) : M U unit :=
  match v with
  | JObject l => set_prop l prop x
  | _ => err <- new_TypeError ("Cannot create property '" ++ prop ++ "'") ;; throw (JObject err)
  end.

(** The text of a value that the type guard has established to be a string. *)
Definition string_of (v : js_value) : string :=
  match v with JString s => s | _ => "" end.

(** ** Stack continuity *)

Definition isStackHolder {U} (obj : js_value) (w : world U) : bool :=
  isObject obj && isString (member obj "stack" w).

Definition extendStackTrace {U} (err : js_value) : M U js_value :=
  fun w =>
    if isStackHolder err w then
      (stackError <- new_Error "" ;;
       stack <- get (JObject stackError) "stack" ;;
       if negb (truthy stack) then ret err
       else
         (* Remove the first line that just says [Error]. *)
         let stackExtension := join nl (slice1 (split newline (string_of stack))) in
         old <- get err "stack" ;;
         _ <- put err "stack" (JString (string_of old ++ nl ++ stackExtension)) ;;
         ret err) w
    else ret err w.

(** ** Collaborators

    The types of the collaborators are opaque to the executor: the payload of
    an operation node besides its [kind], query identifiers, query results,
    compiled queries and the dialect adapter. *)
Class Collaborators : Type := {
  NodeBody : Type;
  QueryId : Type;
  QueryResult : Type;
  CompiledQuery : Type;
  DialectAdapter : Type
}.

Section Executor.
Context `{Collaborators}.

Record RootOperationNode : Type := OperationNode {
  kind : string;
  body : NodeBody
}.

Record PluginTransformQueryArgs : Type := TransformQueryArgs {
  tq_node : RootOperationNode;
  tq_queryId : QueryId
}.

Record PluginTransformResultArgs : Type := TransformResultArgs {
  tr_result : QueryResult;
  tr_queryId : QueryId
}.

Record KyselyPlugin (U : Type) : Type := Plugin {
  plugin_transformQuery : PluginTransformQueryArgs -> M U RootOperationNode;
  plugin_transformResult : PluginTransformResultArgs -> M U QueryResult
}.

Record DatabaseConnection (U : Type) : Type := Connection {
  connection_executeQuery : CompiledQuery -> M U QueryResult
}.

(** The base class: its one field [#plugins], and the abstract members a
    subclass supplies.  [provideConnection<T>] is used at [T = QueryResult]. *)
Record QueryExecutorBase (U : Type) : Type := Executor {
  plugins : list (KyselyPlugin U);
  adapter : DialectAdapter;
  compileQuery : RootOperationNode -> QueryId -> CompiledQuery;
  provideConnection :
    (DatabaseConnection U -> M U QueryResult) -> M U QueryResult
}.

End Executor.

Arguments plugin_transformQuery {_ U} _ _.
Arguments plugin_transformResult {_ U} _ _.
Arguments connection_executeQuery {_ U} _ _.
Arguments Plugin {_ U} _ _.
Arguments Connection {_ U} _.
Arguments Executor {_ U} _ _ _ _.
Arguments plugins {_ U} _.
Arguments adapter {_ U} _.
Arguments compileQuery {_ U} _ _ _.
Arguments provideConnection {_ U} _ _.

Section Methods.
Context `{Collaborators} {U : Type}.

Definition NO_PLUGINS : list (KyselyPlugin U) := [].

(** [constructor(plugins = NO_PLUGINS)]: the default applies when the
    argument is omitted. *)
Definition new_QueryExecutorBase (plugins : option (list (KyselyPlugin U)))
    (adapter : DialectAdapter)
    (compileQuery : RootOperationNode -> QueryId -> CompiledQuery)
    (provideConnection :
       (DatabaseConnection U -> M U QueryResult) -> M U QueryResult)
  : QueryExecutorBase U :=
  Executor (default NO_PLUGINS plugins) adapter compileQuery provideConnection.

Definition kind_mismatch_message (given returned : string) : string :=
  join " "
    [ "KyselyPlugin.transformQuery must return a node";
      "of the same kind that was given to it.";
      "The plugin was given a " ++ given;
      "but it returned a " ++ returned ].

(** The [for ... of this.#plugins] loop of [transformQuery], from the
    remaining plugins. *)
Fixpoint transformQuery_from (remaining : list (KyselyPlugin U))
    (node : RootOperationNode) (queryId : QueryId) : M U RootOperationNode :=
  match remaining with
  | [] => ret node
  | plugin :: rest =>
      transformedNode <- plugin_transformQuery plugin (TransformQueryArgs node queryId) ;;
      if String.eqb (kind transformedNode) (kind node)
      then transformQuery_from rest transformedNode queryId
      else
        (err <- new_Error (kind_mismatch_message (kind node) (kind transformedNode)) ;;
         throw (JObject err))
  end.

Definition transformQuery (this : QueryExecutorBase U)
    (node : RootOperationNode) (queryId : QueryId) : M U RootOperationNode :=
  transformQuery_from (plugins this) node queryId.

(** The loop of [#transformResult]. *)
Fixpoint transformResult_from (remaining : list (KyselyPlugin U))
    (result : QueryResult) (queryId : QueryId) : M U QueryResult :=
  match remaining with
  | [] => ret result
  | plugin :: rest =>
      result' <- plugin_transformResult plugin (TransformResultArgs result queryId) ;;
      transformResult_from rest result' queryId
  end.

Definition transformResult (this : QueryExecutorBase U)
    (result : QueryResult) (queryId : QueryId) : M U QueryResult :=
  transformResult_from (plugins this) result queryId.

(** The unit of work [executeQuery] hands to [provideConnection]. *)
Definition executeQuery_consumer (this : QueryExecutorBase U)
    (compiledQuery : CompiledQuery) (queryId : QueryId)
    (connection : DatabaseConnection U) : M U QueryResult :=
  result <- connection_executeQuery connection compiledQuery ;;
  transformResult this result queryId.

Definition executeQuery (this : QueryExecutorBase U)
    (compiledQuery : CompiledQuery) (queryId : QueryId) : M U QueryResult :=
  try_catch
    (provideConnection this (executeQuery_consumer this compiledQuery queryId))
    (fun err => err' <- extendStackTrace err ;; throw err').

End Methods.

(** ** Vocabulary of the specification *)

(** The text appended for a captured trace: its lines but the first. *)
Definition stack_extension (captured : string) : string :=
  join nl (slice1 (split newline captured)).

(** The [stack] of the failure can be assigned to. *)
Definition stack_writable {U} (err : js_value) (w : world U) : Prop :=
  forall l o p,
    err = JObject l -> heap w !! l = Some o -> o !! "stack" = Some p ->
    prop_writable p = true.

(** The heap once [new Error()] has been evaluated in [w]. *)
Definition heap_with_stackError {U} (w : world U) : gmap loc js_object :=
  <[fresh_loc (heap w) := Error_object "" (Error_stack w "")]> (heap w).

Section Chains.
Context `{Collaborators} {U : Type}.

(** The left fold of an effectful step over a list: the steps run in list
    order, each on the previous one's output. *)
Definition foldM {A B : Type} (step : A -> B -> M U A) (l : list B) (a : A) : M U A :=
  fold_left (fun acc b => x <- acc ;; step x b) l (ret a).

Definition query_step (queryId : QueryId) (node : RootOperationNode)
    (plugin : KyselyPlugin U) : M U RootOperationNode :=
  plugin_transformQuery plugin (TransformQueryArgs node queryId).

Definition result_step (queryId : QueryId) (result : QueryResult)
    (plugin : KyselyPlugin U) : M U QueryResult :=
  plugin_transformResult plugin (TransformResultArgs result queryId).

(** A plugin whose query transform always returns, with a node of the kind
    it was given. *)
Definition kind_preserving (plugin : KyselyPlugin U) : Prop :=
  forall node queryId w, exists node' w',
    query_step queryId node plugin w = (Normal node', w') /\ kind node' = kind node.

(** [query_run queryId ps node w node' w']: started on [node] in world [w],
    every plugin of [ps] in turn returned a node of the kind it was given;
    the last output is [node'], the final world [w']. *)
Inductive query_run (queryId : QueryId) :
  list (KyselyPlugin U) -> RootOperationNode -> world U ->
  RootOperationNode -> world U -> Prop :=
| query_run_nil node w : query_run queryId [] node w node w
| query_run_cons plugin rest node w node1 w1 node' w' :
    query_step queryId node plugin w = (Normal node1, w1) ->
    kind node1 = kind node ->
    query_run queryId rest node1 w1 node' w' ->
    query_run queryId (plugin :: rest) node w node' w'.

(** [result_run queryId ps result w result' w']: every plugin of [ps] in
    turn returned a result, whatever its shape. *)
Inductive result_run (queryId : QueryId) :
  list (KyselyPlugin U) -> QueryResult -> world U ->
  QueryResult -> world U -> Prop :=
| result_run_nil result w : result_run queryId [] result w result w
| result_run_cons plugin rest result w result1 w1 result' w' :
    result_step queryId result plugin w = (Normal result1, w1) ->
    result_run queryId rest result1 w1 result' w' ->
    result_run queryId (plugin :: rest) result w result' w'.

(** The unit of work as the specification words it: execute the compiled
    query on the connection, then fold the result transforms over the raw
    result. *)
Definition unit_of_work (ps : list (KyselyPlugin U)) (compiledQuery : CompiledQuery)
    (queryId : QueryId) (connection : DatabaseConnection U) : M U QueryResult :=
  fun w =>
    match connection_executeQuery connection compiledQuery w with
    | (Normal raw, w1) => foldM (result_step queryId) ps raw w1
    | (Thrown e, w1) => (Thrown e, w1)
    end.


End Chains.

(** ** Observing plugin invocations

    A spy wraps a plugin so that each invocation appends the plugin's
    registration index to a log kept beside the plugin's own state. *)

Section Spies.
Context `{Collaborators} {U : Type}.

Definition lower (w : world (U * list nat)) : world U :=
  World (heap w) (Error_stack w) (fst (user w)).

Definition raise (w : world U) (log : list nat) : world (U * list nat) :=
  World (heap w) (Error_stack w) (user w, log).

Definition calls (w : world (U * list nat)) : list nat := snd (user w).

Definition spy {A : Type} (i : nat) (m : M U A) : M (U * list nat) A :=
  fun w => let (o, w') := m (lower w) in (o, raise w' (calls w ++ [i])%list).

Definition spy_plugin (i : nat) (plugin : KyselyPlugin U) : KyselyPlugin (U * list nat) :=
  Plugin (fun args => spy i (plugin_transformQuery plugin args))
         (fun args => spy i (plugin_transformResult plugin args)).

(** The plugins of a sequence, each spied under its index, counting from [k]. *)
Fixpoint spied (k : nat) (ps : list (KyselyPlugin U)) : list (KyselyPlugin (U * list nat)) :=
  match ps with
  | [] => []
  | plugin :: rest => spy_plugin k plugin :: spied (S k) rest
  end.

End Spies.

(** A second observer records, at each invocation, which plugin was invoked
    (by registration index) and the query identifier it was handed. *)

Section IdentifierSpies.
Context `{Collaborators} {U : Type}.

Definition lower_ids (w : world (U * list (nat * QueryId))) : world U :=
  World (heap w) (Error_stack w) (fst (user w)).

Definition raise_ids (w : world U) (seen : list (nat * QueryId))
  : world (U * list (nat * QueryId)) :=
  World (heap w) (Error_stack w) (user w, seen).

Definition seen_ids (w : world (U * list (nat * QueryId))) : list (nat * QueryId) :=
  snd (user w).

Definition record_id {A : Type} (i : nat) (queryId : QueryId) (m : M U A)
  : M (U * list (nat * QueryId)) A :=
  fun w =>
    let (o, w') := m (lower_ids w) in
    (o, raise_ids w' (seen_ids w ++ [(i, queryId)])%list).

Definition recording (i : nat) (plugin : KyselyPlugin U)
  : KyselyPlugin (U * list (nat * QueryId)) :=
  Plugin (fun args => record_id i (tq_queryId args) (plugin_transformQuery plugin args))
         (fun args => record_id i (tr_queryId args) (plugin_transformResult plugin args)).

(** The plugins of a sequence, each recording under its index, counting
    from [k]. *)
Fixpoint recorded (k : nat) (ps : list (KyselyPlugin U))
  : list (KyselyPlugin (U * list (nat * QueryId))) :=
  match ps with
  | [] => []
  | plugin :: rest => recording k plugin :: recorded (S k) rest
  end.

End IdentifierSpies.

(** ** Derivation of executors *)

Module Derivation.
Section Derivation.
Context `{Collaborators} {U : Type}.

(** The executor instances alive, by reference. *)
Abbreviation instances := (gmap loc (QueryExecutorBase U)).

Definition instantiate (e : QueryExecutorBase U) (σ : instances) : loc * instances :=
  let l := fresh (dom σ) in (l, <[l := e]> σ).

(** Modelled from the spec: the four derivation methods are abstract in
    [QueryExecutorBase] and the subclass that implements them is not among the
    sources.  Section 4.4: each returns a new instance sharing the compiler and
    adapter logic, with a modified plugin sequence. *)
Definition derive (change : list (KyselyPlugin U) -> list (KyselyPlugin U))
    (this : loc) (σ : instances) : option (loc * instances) :=
  match σ !! this with
  | Some e =>
      Some (instantiate
              (Executor (change (plugins e)) (adapter e) (compileQuery e)
                 (provideConnection e)) σ)
  | None => None
  end.

(** Modelled from the spec: [withPlugin] has no body in the sources;
    "add one plugin to the end of the sequence". *)
Definition withPlugin (this : loc) (plugin : KyselyPlugin U) :=
  derive (fun ps => (ps ++ [plugin])%list) this.

(** Modelled from the spec: [withPlugins] has no body in the sources;
    "replace the entire plugin sequence". *)
Definition withPlugins (this : loc) (plugins : list (KyselyPlugin U)) :=
  derive (fun _ => plugins) this.

(** Modelled from the spec: [withPluginAtFront] has no body in the sources;
    "add one plugin to the front of the sequence". *)
Definition withPluginAtFront (this : loc) (plugin : KyselyPlugin U) :=
  derive (fun ps => plugin :: ps) this.

(** Modelled from the spec: [withoutPlugins] has no body in the sources;
    "clear the plugin sequence to empty". *)
Definition withoutPlugins (this : loc) :=
  derive (fun _ => []) this.

(** What every derivation owes its receiver: the receiver and every other
    instance are as before, and the result is a new instance that shares the
    receiver's adapter, compiler and connection provisioning and carries the
    plugin sequence [ps']. *)
Definition derived (σ : instances) (this : loc) (ps' : list (KyselyPlugin U))
    (r : option (loc * instances)) : Prop :=
  exists new σ' e e',
    r = Some (new, σ') /\
    σ !! this = Some e /\ σ !! new = None /\ new <> this /\
    σ' !! this = Some e /\
    (forall l, l <> new -> σ' !! l = σ !! l) /\
    σ' !! new = Some e' /\
    plugins e' = ps' /\
    adapter e' = adapter e /\
    compileQuery e' = compileQuery e /\
    provideConnection e' = provideConnection e.

End Derivation.
End Derivation.

(** ** A provider and sample collaborators *)

Section Provider.
Context `{Collaborators} {U : Type}.

(** [try { body } finally { cleanup }] *)
Definition try_finally {A} (body : M U A) (cleanup : M U unit) : M U A :=
  fun w =>
    let (o, w1) := body w in
    match cleanup w1 with
    | (Normal _, w2) => (o, w2)
    | (Thrown e, w2) => (Thrown e, w2)
    end.

(** Modelled from the spec: [provideConnection] is abstract in
    [QueryExecutorBase] and no provider is among the sources.  Section 4.2:
    acquisition and release of the connection around exactly one invocation of
    the consumer, release on every exit path, the consumer's value or failure
    propagated. *)
Definition scoped_provider (acquire : M U (DatabaseConnection U))
    (release : DatabaseConnection U -> M U unit)
    (consumer : DatabaseConnection U -> M U QueryResult) : M U QueryResult :=
  connection <- acquire ;;
  try_finally (consumer connection) (release connection).

End Provider.

Module Sample.

Definition collaborators : Collaborators :=
  {| NodeBody := list string;
     QueryId := string;
     QueryResult := list Z;
     CompiledQuery := string;
     DialectAdapter := unit |}.
#[local] Existing Instance collaborators.

(** The user part of the world counts the connections currently held. *)
Definition held := nat.

Definition select_all : RootOperationNode := OperationNode "SelectQueryNode" ["*"].
Definition update_node : RootOperationNode := OperationNode "UpdateQueryNode" ["t"].
Definition upper_update : RootOperationNode :=
  OperationNode "UpdateQueryNode" ["UPPER"; "t"].
Definition upper_delete : RootOperationNode :=
  OperationNode "DeleteQueryNode" ["UPPER"; "t"].
Definition upper_limited_select : RootOperationNode :=
  OperationNode "SelectQueryNode" ["UPPER"; "*"; "limit 10"].

(** Rewrites the payload, keeps the kind; doubles every result value. *)
Definition Uppercase : KyselyPlugin held :=
  Plugin (fun args => ret (OperationNode (kind (tq_node args)) ("UPPER" :: body (tq_node args))))
         (fun args => ret (Z.mul 2 <$> tr_result args)).

(** Appends a row cap, keeps the kind; adds one to every result value. *)
Definition AddLimit : KyselyPlugin held :=
  Plugin (fun args => ret (OperationNode (kind (tq_node args)) (body (tq_node args) ++ ["limit 10"])%list))
         (fun args => ret (Z.add 1 <$> tr_result args)).

(** Answers every node with a delete node. *)
Definition ToDelete : KyselyPlugin held :=
  Plugin (fun args => ret (OperationNode "DeleteQueryNode" (body (tq_node args))))
         (fun args => ret (tr_result args)).

Definition rows_connection : DatabaseConnection held :=
  Connection (fun _ => ret [1; 2; 3]%Z).

(** A connection whose execution fails with the error object at reference 1. *)
Definition failing_connection : DatabaseConnection held :=
  Connection (fun _ => throw (JObject 1%positive)).

Definition acquire (connection : DatabaseConnection held) : M held (DatabaseConnection held) :=
  fun w => (Normal connection, World (heap w) (Error_stack w) (S (user w))).

Definition release (_ : DatabaseConnection held) : M held unit :=
  fun w => (Normal tt, World (heap w) (Error_stack w) (pred (user w))).

Definition executor (ps : list (KyselyPlugin held)) (connection : DatabaseConnection held)
  : QueryExecutorBase held :=
  new_QueryExecutorBase (Some ps) tt (fun node _ => kind node)
    (scoped_provider (acquire connection) release).

Definition boom_stack : string := "Error: boom" ++ nl ++ "    at Connection.executeQuery".

Definition boom : js_object :=
  <["stack" := data (JString boom_stack)]> {["message" := data (JString "boom")]}.

(** The same failure, frozen: no property of it can be written. *)
Definition frozen_boom : js_object :=
  <["stack" := Property (JString boom_stack) false]>
    {["message" := Property (JString "boom") false]}.

Definition observed_stack : string :=
  "Error" ++ nl ++ "    at extendStackTrace" ++ nl ++ "    at executeQuery".

(** What the runtime captures at a later interception, further out. *)
Definition later_stack : string :=
  "Error" ++ nl ++ "    at extendStackTrace" ++ nl ++ "    at executeQuery"
  ++ nl ++ "    at Transaction.execute".

(** A runtime that records stacks, with the failure [boom] allocated. *)
Definition world_with_stacks : world held :=
  World {[ 1%positive := boom ]} (fun _ => Some observed_stack) 0.


(** The world at a later interception of the same failure: the heap as the
    first interception left it, the runtime capturing [later_stack]. *)
Definition world_later : world held :=
  World (heap (snd (extendStackTrace (JObject 1%positive) world_with_stacks)))
    (fun _ => Some later_stack) 0.

(** A runtime that records stacks, with the frozen failure allocated. *)
Definition world_with_frozen_failure : world held :=
  World {[ 1%positive := frozen_boom ]} (fun _ => Some observed_stack) 0.

Definition empty_world : world held := World ∅ (fun _ => Some observed_stack) 0.

Definition select_executor : QueryExecutorBase held :=
  executor [Uppercase; AddLimit] rows_connection.

Definition violating_executor : QueryExecutorBase held :=
  executor [Uppercase; ToDelete; AddLimit] rows_connection.

Definition failing_executor : QueryExecutorBase held :=
  executor [Uppercase; AddLimit] failing_connection.


Definition upper_select : RootOperationNode :=
  OperationNode "SelectQueryNode" ["UPPER"; "*"].

Definition uppercase_executor : QueryExecutorBase held :=
  executor [Uppercase] rows_connection.

Definition limit_executor : QueryExecutorBase held :=
  executor [AddLimit] rows_connection.

(** Fails in both phases with a thrown string. *)
Definition Failing : KyselyPlugin held :=
  Plugin (fun _ => throw (JString "plugin failed"))
         (fun _ => throw (JString "plugin failed")).

Definition plugin_failure_executor : QueryExecutorBase held :=
  executor [Uppercase; Failing; AddLimit] rows_connection.

(** A connection whose execution fails with a thrown string. *)
Definition timeout_connection : DatabaseConnection held :=
  Connection (fun _ => throw (JString "timeout")).

Definition timeout_executor : QueryExecutorBase held :=
  executor [Uppercase; AddLimit] timeout_connection.

End Sample.

(** * Properties *)

(** ** Worlds and heaps *)

Lemma fresh_loc_unused (h : gmap loc js_object) : h !! fresh_loc h = None.
Proof. unfold fresh_loc. apply (not_elem_of_dom (D:=gset loc)), is_fresh. Qed.

Lemma fresh_loc_ne (h : gmap loc js_object) (l : loc) (o : js_object) :
  h !! l = Some o -> fresh_loc h <> l.
Proof. intros Hl Heq. rewrite <- Heq, fresh_loc_unused in Hl. discriminate. Qed.

(** ** Lines of a trace *)

Lemma split_nonempty (sep : ascii) (s : string) : split sep s <> [].
Proof.
  destruct s as [|c s]; simpl; [done|].
  destruct (Ascii.eqb c sep); [done|]. by destruct (split sep s).
Qed.

Lemma split_app_sep (sep : ascii) (a b : string) :
  split sep (a ++ String sep b) = (split sep a ++ split sep b)%list.
Proof.
  induction a as [|c a IH]; simpl.
  - by rewrite Ascii.eqb_refl.
  - destruct (Ascii.eqb c sep); [by rewrite IH|].
    rewrite IH. destruct (split sep a) as [|x xs] eqn:E; [|done].
    by destruct (split_nonempty sep a).
Qed.


Lemma line_count_append (a b : string) :
  line_count (a ++ nl ++ b) = line_count a + line_count b.
Proof. unfold line_count. by rewrite <- length_app, <- split_app_sep. Qed.


(** ** The monad *)

Section MonadFacts.
Context {U : Type}.

Lemma fold_left_bind {A B} (step : A -> B -> M U A) (l : list B) (m : M U A) (w : world U) :
  fold_left (fun acc b => x <- acc ;; step x b) l m w =
  match m w with
  | (Normal a, w') => foldM step l a w'
  | (Thrown e, w') => (Thrown e, w')
  end.
Proof.
  revert m w. induction l as [|b l IH]; intros m w; simpl.
  - unfold foldM, ret. simpl. by destruct (m w) as [[a|e] w'].
  - rewrite IH. unfold foldM. simpl. unfold bind at 1.
    destruct (m w) as [[a|e] w']; [|done].
    rewrite (IH (bind (ret a) (fun x => step x b))). unfold bind, ret. done.
Qed.

Lemma foldM_nil {A B} (step : A -> B -> M U A) (a : A) (w : world U) :
  foldM step [] a w = (Normal a, w).
Proof. done. Qed.

Lemma foldM_cons {A B} (step : A -> B -> M U A) (b : B) (l : list B) (a : A) (w : world U) :
  foldM step (b :: l) a w =
  match step a b w with
  | (Normal a', w') => foldM step l a' w'
  | (Thrown e, w') => (Thrown e, w')
  end.
Proof. unfold foldM at 1. simpl. rewrite fold_left_bind. by unfold bind, ret. Qed.

End MonadFacts.

(** ** The plugin chains *)

Section ChainFacts.
Context `{Collaborators} {U : Type}.
Implicit Types (ps pre rest post : list (KyselyPlugin U)) (w : world U).

Lemma transformQuery_from_cons plugin ps node queryId w :
  transformQuery_from (plugin :: ps) node queryId w =
  match query_step queryId node plugin w with
  | (Normal node1, w1) =>
      if String.eqb (kind node1) (kind node)
      then transformQuery_from ps node1 queryId w1
      else
        (err <- new_Error (kind_mismatch_message (kind node) (kind node1)) ;;
         throw (JObject err)) w1
  | (Thrown e, w1) => (Thrown e, w1)
  end.
Proof.
  simpl. unfold bind at 1, query_step.
  destruct (plugin_transformQuery plugin _ w) as [[node1|e] w1]; [|done].
  by destruct (String.eqb (kind node1) (kind node)).
Qed.

Lemma query_run_kind queryId ps node w node' w' :
  query_run queryId ps node w node' w' -> kind node' = kind node.
Proof. induction 1; congruence. Qed.

Lemma query_run_returns queryId ps node w node' w' :
  query_run queryId ps node w node' w' ->
  transformQuery_from ps node queryId w = (Normal node', w').
Proof.
  induction 1 as [|plugin rest node w node1 w1 node' w' Hstep Hkind _ IH]; [reflexivity|].
  rewrite transformQuery_from_cons, Hstep, Hkind, String.eqb_refl. exact IH.
Qed.

Lemma query_run_fold queryId ps node w node' w' :
  query_run queryId ps node w node' w' ->
  foldM (query_step queryId) ps node w = (Normal node', w').
Proof.
  induction 1 as [|plugin rest node w node1 w1 node' w' Hstep _ _ IH]; [reflexivity|].
  by rewrite foldM_cons, Hstep.
Qed.

Lemma returns_query_run queryId ps node w node' w' :
  transformQuery_from ps node queryId w = (Normal node', w') ->
  query_run queryId ps node w node' w'.
Proof.
  revert node w. induction ps as [|plugin ps IH]; intros node w Hrun.
  - injection Hrun as <- <-. constructor.
  - rewrite transformQuery_from_cons in Hrun.
    destruct (query_step queryId node plugin w) as [[node1|e] w1] eqn:Hstep; [|done].
    destruct (String.eqb_spec (kind node1) (kind node)) as [Hkind|_]; [|done].
    econstructor; eauto.
Qed.

Lemma query_run_total queryId ps node w :
  Forall kind_preserving ps ->
  exists node' w', query_run queryId ps node w node' w'.
Proof.
  intros Hps. revert node w.
  induction Hps as [|plugin ps Hp _ IH]; intros node w.
  - exists node, w. constructor.
  - destruct (Hp node queryId w) as (node1 & w1 & Hstep & Hkind).
    destruct (IH node1 w1) as (node' & w' & Hrest).
    exists node', w'. econstructor; eauto.
Qed.

(** After a prefix that ran to completion, the loop continues with the rest. *)
Lemma query_run_prefix queryId pre rest node w node1 w1 :
  query_run queryId pre node w node1 w1 ->
  transformQuery_from (pre ++ rest) node queryId w =
  transformQuery_from rest node1 queryId w1.
Proof.
  induction 1 as [|plugin pre node w node0 w0 node1 w1 Hstep Hkind _ IH]; [reflexivity|].
  change ((plugin :: pre) ++ rest)%list with (plugin :: (pre ++ rest))%list.
  rewrite transformQuery_from_cons, Hstep, Hkind, String.eqb_refl. exact IH.
Qed.

(** What the loop does at the first plugin that changes the kind. *)
Lemma kind_violation_throws queryId plugin rest node w node1 w1 :
  query_step queryId node plugin w = (Normal node1, w1) ->
  kind node1 <> kind node ->
  transformQuery_from (plugin :: rest) node queryId w =
  (Thrown (JObject (fresh_loc (heap w1))),
   set_heap
     (<[fresh_loc (heap w1) :=
          Error_object (kind_mismatch_message (kind node) (kind node1))
            (Error_stack w1 (kind_mismatch_message (kind node) (kind node1)))]>
        (heap w1)) w1).
Proof.
  intros Hstep Hkind. rewrite transformQuery_from_cons, Hstep.
  destruct (String.eqb_spec (kind node1) (kind node)); [done|]. done.
Qed.

Lemma Error_object_message message stack :
  Error_object message stack !! "message" = Some (data (JString message)).
Proof. by destruct stack. Qed.

Lemma transformResult_from_fold queryId ps result w :
  transformResult_from ps result queryId w = foldM (result_step queryId) ps result w.
Proof.
  revert result w. induction ps as [|plugin ps IH]; intros result w; [done|].
  rewrite foldM_cons. simpl. unfold bind. fold (result_step queryId result plugin).
  destruct (result_step queryId result plugin w) as [[result1|e] w1]; [apply IH | done].
Qed.

Lemma result_run_returns queryId ps result w result' w' :
  result_run queryId ps result w result' w' <->
  transformResult_from ps result queryId w = (Normal result', w').
Proof.
  split.
  - induction 1 as [|plugin rest result w result1 w1 result' w' Hstep _ IH]; [reflexivity|].
    simpl. unfold bind. fold (result_step queryId result plugin). by rewrite Hstep.
  - revert result w. induction ps as [|plugin ps IH]; intros result w Hrun.
    + injection Hrun as <- <-. constructor.
    + simpl in Hrun. unfold bind in Hrun. fold (result_step queryId result plugin) in Hrun.
      destruct (result_step queryId result plugin w) as [[result1|e] w1] eqn:Hstep; [|done].
      econstructor; eauto.
Qed.

Lemma result_run_prefix queryId pre rest result w result1 w1 :
  result_run queryId pre result w result1 w1 ->
  transformResult_from (pre ++ rest) result queryId w =
  transformResult_from rest result1 queryId w1.
Proof.
  induction 1 as [|plugin pre result w result0 w0 result1 w1 Hstep _ IH]; [reflexivity|].
  simpl. unfold bind at 1. fold (result_step queryId result plugin). by rewrite Hstep.
Qed.

(** Inside the unit of work nothing is caught: a failure of the connection or
    of a plugin's result transform is the failure of the unit of work. *)
Lemma consumer_execution_failure (this : QueryExecutorBase U)
    compiledQuery queryId connection w0 e w1 :
  connection_executeQuery connection compiledQuery w0 = (Thrown e, w1) ->
  executeQuery_consumer this compiledQuery queryId connection w0 = (Thrown e, w1).
Proof. intros Hexec. unfold executeQuery_consumer, bind. by rewrite Hexec. Qed.

Lemma consumer_plugin_failure (this : QueryExecutorBase U)
    compiledQuery queryId connection w0 raw w1 pre plugin post result2 w2 e w3 :
  connection_executeQuery connection compiledQuery w0 = (Normal raw, w1) ->
  plugins this = (pre ++ plugin :: post)%list ->
  result_run queryId pre raw w1 result2 w2 ->
  result_step queryId result2 plugin w2 = (Thrown e, w3) ->
  executeQuery_consumer this compiledQuery queryId connection w0 = (Thrown e, w3).
Proof.
  intros Hexec Hps Hpre Hstep. unfold executeQuery_consumer, bind at 1.
  rewrite Hexec. unfold transformResult.
  rewrite Hps, (result_run_prefix _ _ _ _ _ _ _ Hpre).
  simpl. unfold bind. fold (result_step queryId result2 plugin). by rewrite Hstep.
Qed.


Lemma consumer_is_unit_of_work (this : QueryExecutorBase U) compiledQuery queryId connection w :
  executeQuery_consumer this compiledQuery queryId connection w =
  unit_of_work (plugins this) compiledQuery queryId connection w.
Proof.
  unfold executeQuery_consumer, unit_of_work, bind.
  destruct (connection_executeQuery connection compiledQuery w) as [[raw|e] w1]; [|done].
  apply transformResult_from_fold.
Qed.

End ChainFacts.

(** ** Spied plugins *)

Section SpyFacts.
Context `{Collaborators} {U : Type}.
Implicit Types (ps pre rest post : list (KyselyPlugin U)) (w : world U) (log : list nat).

Lemma lower_raise w log : lower (raise w log) = w.
Proof. by destruct w. Qed.

Lemma spy_outcome {A} (i : nat) (m : M U A) w log o w' :
  m w = (o, w') -> spy i m (raise w log) = (o, raise w' (log ++ [i])).
Proof. intros Hm. unfold spy. by rewrite lower_raise, Hm. Qed.

Lemma spied_app k pre rest :
  spied k (pre ++ rest) = (spied k pre ++ spied (k + length pre) rest)%list.
Proof.
  revert k. induction pre as [|plugin pre IH]; intros k; simpl.
  - by rewrite Nat.add_0_r.
  - rewrite IH. do 3 f_equal. lia.
Qed.

Lemma query_run_spied queryId ps node w node' w' :
  query_run queryId ps node w node' w' ->
  forall k log,
    query_run queryId (spied k ps) node (raise w log) node'
      (raise w' (log ++ seq k (length ps))).
Proof.
  induction 1 as [|plugin rest node w node1 w1 node' w' Hstep Hkind _ IH];
    intros k log; simpl.
  - rewrite app_nil_r. constructor.
  - econstructor; [exact (spy_outcome k _ w log _ _ Hstep) | exact Hkind |].
    specialize (IH (S k) (log ++ [k])%list). by rewrite <- app_assoc in IH.
Qed.

Lemma result_run_spied queryId ps result w result' w' :
  result_run queryId ps result w result' w' ->
  forall k log,
    result_run queryId (spied k ps) result (raise w log) result'
      (raise w' (log ++ seq k (length ps))).
Proof.
  induction 1 as [|plugin rest result w result1 w1 result' w' Hstep _ IH];
    intros k log; simpl.
  - rewrite app_nil_r. constructor.
  - econstructor; [exact (spy_outcome k _ w log _ _ Hstep) |].
    specialize (IH (S k) (log ++ [k])%list). by rewrite <- app_assoc in IH.
Qed.

(** The invocations a spied chain records when plugin [length pre] is the
    first to change the kind. *)
Lemma kind_violation_calls queryId pre plugin post node w node1 w1 node2 w2 log :
  query_run queryId pre node w node1 w1 ->
  query_step queryId node1 plugin w1 = (Normal node2, w2) ->
  kind node2 <> kind node1 ->
  calls (snd (transformQuery_from (spied 0 (pre ++ plugin :: post)) node queryId
                (raise w log))) =
  (log ++ seq 0 (S (length pre)))%list.
Proof.
  intros Hpre Hstep Hkind.
  rewrite spied_app. simpl spied.
  rewrite (query_run_prefix _ _ _ _ _ _ _ (query_run_spied _ _ _ _ _ _ Hpre 0 log)).
  erewrite kind_violation_throws;
    [| exact (spy_outcome _ _ w1 _ _ _ Hstep) | exact Hkind].
  rewrite seq_S, app_assoc. reflexivity.
Qed.

End SpyFacts.

(** ** Stack continuity *)

Section StackFacts.
Context {U : Type}.
Implicit Types (w : world U) (l : loc) (o : js_object).

Lemma isStackHolder_inv err w :
  isStackHolder err w = true ->
  exists l o old wr,
    err = JObject l /\ heap w !! l = Some o /\
    o !! "stack" = Some (Property (JString old) wr).
Proof.
  unfold isStackHolder, member, get_prop.
  destruct err as [| | | | |l]; try done. simpl.
  destruct (heap w !! l) as [o|] eqn:Hl; [|done].
  destruct (o !! "stack") as [[[| | | |old|] wr]|] eqn:Hs; try done.
  intros _. by exists l, o, old, wr.
Qed.

Lemma isStackHolder_intro l o old wr w :
  heap w !! l = Some o -> o !! "stack" = Some (Property (JString old) wr) ->
  isStackHolder (JObject l) w = true.
Proof. intros Hl Hs. unfold isStackHolder, member, get_prop. by rewrite Hl, Hs. Qed.

Lemma member_stack_inv l old w :
  member (JObject l) "stack" w = JString old ->
  exists o wr, heap w !! l = Some o /\ o !! "stack" = Some (Property (JString old) wr).
Proof.
  unfold member, get_prop.
  destruct (heap w !! l) as [o|] eqn:Hl; [|done].
  destruct (o !! "stack") as [[v wr]|] eqn:Hs; [|done].
  simpl. intros ->. exists o, wr. by split.
Qed.

Lemma extendStackTrace_other err w :
  isStackHolder err w = false -> extendStackTrace err w = (Normal err, w).
Proof. intros Hno. unfold extendStackTrace. by rewrite Hno. Qed.

Lemma stackError_stack w :
  member (JObject (fresh_loc (heap w))) "stack" (set_heap (heap_with_stackError w) w) =
  match Error_stack w "" with Some captured => JString captured | None => JUndefined end.
Proof.
  unfold member, get_prop, heap_with_stackError. cbn [heap set_heap].
  rewrite lookup_insert_eq.
  destruct (Error_stack w ""); cbn [Error_object].
  - by rewrite lookup_insert_eq.
  - by rewrite lookup_singleton_ne.
Qed.

Lemma heap_with_stackError_lookup l o w :
  heap w !! l = Some o -> heap_with_stackError w !! l = Some o.
Proof.
  intros Hl. unfold heap_with_stackError.
  rewrite lookup_insert_ne by (eapply fresh_loc_ne; eauto). done.
Qed.

(** With nothing captured the guard returns before any write, whether the
    [stack] can be written or not. *)
Lemma extendStackTrace_uncaptured l o old wr w :
  heap w !! l = Some o -> o !! "stack" = Some (Property (JString old) wr) ->
  Error_stack w "" = None \/ Error_stack w "" = Some "" ->
  extendStackTrace (JObject l) w =
  (Normal (JObject l), set_heap (heap_with_stackError w) w).
Proof.
  intros Hl Hs Hcap. unfold extendStackTrace.
  rewrite (isStackHolder_intro l o old wr w Hl Hs).
  unfold bind at 1, new_Error. fold (heap_with_stackError w).
  unfold bind at 1, get at 1. rewrite stackError_stack.
  by destruct Hcap as [-> | ->].
Qed.

Lemma extendStackTrace_holder l o old captured w :
  heap w !! l = Some o -> o !! "stack" = Some (Property (JString old) true) ->
  Error_stack w "" = Some captured -> captured <> "" ->
  extendStackTrace (JObject l) w =
  (Normal (JObject l),
   set_heap
     (<[l := <["stack" := data (JString (old ++ nl ++ stack_extension captured))]> o]>
        (heap_with_stackError w)) w).
Proof.
  intros Hl Hs Hcap Hne. unfold extendStackTrace.
  rewrite (isStackHolder_intro l o old true w Hl Hs).
  unfold bind at 1, new_Error. fold (heap_with_stackError w).
  unfold bind at 1, get at 1. rewrite stackError_stack, Hcap.
  cbn [truthy string_of].
  destruct (String.eqb_spec captured ""); [done|]. cbn [negb].
  unfold bind, get, put, set_prop, ret, member, get_prop, assignable.
  cbn [set_heap heap Error_stack user].
  rewrite (heap_with_stackError_lookup l o w Hl).
  change (default ∅ (Some o)) with o. rewrite Hs. reflexivity.
Qed.

(** A [stack] that cannot be written makes the extension fail: what comes out
    is a new [TypeError], not the failure. *)
Lemma extendStackTrace_refused l o old captured w :
  heap w !! l = Some o -> o !! "stack" = Some (Property (JString old) false) ->
  Error_stack w "" = Some captured -> captured <> "" ->
  extendStackTrace (JObject l) w =
  (Thrown (JObject (fresh_loc (heap_with_stackError w))),
   set_heap
     (<[fresh_loc (heap_with_stackError w) :=
          <["name" := data (JString "TypeError")]>
            (Error_object (read_only_message "stack")
               (Error_stack w (read_only_message "stack")))]>
        (heap_with_stackError w)) w).
Proof.
  intros Hl Hs Hcap Hne. unfold extendStackTrace.
  rewrite (isStackHolder_intro l o old false w Hl Hs).
  unfold bind at 1, new_Error. fold (heap_with_stackError w).
  unfold bind at 1, get at 1. rewrite stackError_stack, Hcap.
  cbn [truthy string_of].
  destruct (String.eqb_spec captured ""); [done|]. cbn [negb].
  unfold bind, get, put, set_prop, ret, member, get_prop, assignable, new_TypeError, throw.
  cbn [set_heap heap Error_stack user].
  rewrite (heap_with_stackError_lookup l o w Hl).
  change (default ∅ (Some o)) with o. rewrite Hs. reflexivity.
Qed.

(** Whatever the interception does, the handler of [executeQuery] throws. *)
Lemma interception_throws {A : Type} err w :
  exists e w2,
    (err' <- extendStackTrace err ;; throw (A:=A) err') w = (Thrown e, w2).
Proof.
  unfold bind, throw. destruct (extendStackTrace err w) as [[v|e] w2]; eauto.
Qed.

(** When the failure's [stack] can be written, interception leaves the
    failure value, the runtime and the user state alone, and on the heap
    changes at most the failure's own [stack]. *)
Lemma extendStackTrace_frame err w :
  stack_writable err w ->
  exists w2,
    extendStackTrace err w = (Normal err, w2) /\
    Error_stack w2 = Error_stack w /\ user w2 = user w /\
    (isStackHolder err w = false -> w2 = w) /\
    (forall l o, heap w !! l = Some o -> JObject l <> err -> heap w2 !! l = Some o) /\
    (forall l o, err = JObject l -> heap w !! l = Some o ->
       exists o', heap w2 !! l = Some o' /\
                  forall prop, prop <> "stack" -> o' !! prop = o !! prop).
Proof.
  intros Hwritable.
  destruct (isStackHolder err w) eqn:Hholder.
  - destruct (isStackHolder_inv _ _ Hholder) as (l & o & old & wr & -> & Hl & Hs).
    pose proof (Hwritable l o _ eq_refl Hl Hs) as Hwr. simpl in Hwr. subst wr.
    pose proof (fun l0 o0 => heap_with_stackError_lookup l0 o0 w) as Hfresh.
    destruct (Error_stack w "") as [captured|] eqn:Hcap;
      [destruct (String.eqb_spec captured "") as [->|Hne]|].
    + eexists. split; [apply (extendStackTrace_uncaptured l o old true); auto|].
      cbn [set_heap Error_stack user heap]. repeat split; [done| |].
      * intros l0 o0 Hl0 _. by apply Hfresh.
      * intros l0 o0 [= <-] Hl0. exists o0. split; [by apply Hfresh | done].
    + eexists. split; [exact (extendStackTrace_holder l o old captured w Hl Hs Hcap Hne)|].
      cbn [set_heap Error_stack user heap]. repeat split; [done| |].
      * intros l0 o0 Hl0 Hne0. rewrite lookup_insert_ne by congruence. by apply Hfresh.
      * intros l0 o0 [= <-] Hl0. rewrite Hl in Hl0. injection Hl0 as <-.
        eexists. split; [apply lookup_insert_eq|].
        intros prop Hprop. by rewrite lookup_insert_ne.
    + eexists. split; [apply (extendStackTrace_uncaptured l o old true); auto|].
      cbn [set_heap Error_stack user heap]. repeat split; [done| |].
      * intros l0 o0 Hl0 _. by apply Hfresh.
      * intros l0 o0 [= <-] Hl0. exists o0. split; [by apply Hfresh | done].
  - exists w. split; [by apply extendStackTrace_other|].
    repeat split; try done. intros l o _ Hl. by exists o.
Qed.

(** The trace of a failure with a writable [stack] after an interception that
    captured something: extended, and as writable as before. *)
Lemma extendStackTrace_extends l old captured w :
  member (JObject l) "stack" w = JString old ->
  stack_writable (JObject l) w ->
  Error_stack w "" = Some captured -> captured <> "" ->
  exists w2,
    extendStackTrace (JObject l) w = (Normal (JObject l), w2) /\
    member (JObject l) "stack" w2 = JString (old ++ nl ++ stack_extension captured) /\
    stack_writable (JObject l) w2.
Proof.
  intros Hold Hwritable Hcap Hne.
  destruct (member_stack_inv l old w Hold) as (o & wr & Hl & Hs).
  pose proof (Hwritable l o _ eq_refl Hl Hs) as Hwr. simpl in Hwr. subst wr.
  eexists. split; [exact (extendStackTrace_holder l o old captured w Hl Hs Hcap Hne)|].
  split.
  - unfold member, get_prop. cbn [set_heap heap]. by rewrite !lookup_insert_eq.
  - intros l0 o0 p [= <-]. cbn [set_heap heap]. rewrite lookup_insert_eq.
    intros [= <-]. rewrite lookup_insert_eq. by intros [= <-].
Qed.


End StackFacts.


(** ** Providers and derivations *)

Section ProviderFacts.
Context `{Collaborators} {U : Type}.


Lemma derive_derived (σ : gmap loc (QueryExecutorBase U)) (this : loc)
    (e : QueryExecutorBase U) (change : list (KyselyPlugin U) -> list (KyselyPlugin U)) :
  σ !! this = Some e ->
  Derivation.derived σ this (change (plugins e)) (Derivation.derive change this σ).
Proof.
  intros Hthis. unfold Derivation.derive, Derivation.instantiate. rewrite Hthis.
  assert (Hnew : σ !! fresh (dom σ) = None).
  { apply (not_elem_of_dom (D:=gset loc)), is_fresh. }
  assert (Hne : fresh (dom σ) <> this) by (intros Heq; congruence).
  eexists _, _, e, _. split; [reflexivity|].
  split; [exact Hthis|]. split; [exact Hnew|]. split; [exact Hne|].
  split; [by rewrite lookup_insert_ne|].
  split; [intros l Hl; by rewrite lookup_insert_ne|].
  split; [apply lookup_insert_eq|]. by split_and!.
Qed.

End ProviderFacts.

(** * The claims *)

Section Claims.
Context `{Collaborators} {U : Type}.
Implicit Types (this : QueryExecutorBase U) (w : world U)
  (pre post : list (KyselyPlugin U)) (node : RootOperationNode).

(** C1. When every plugin's query transform returns a node of the kind it was
    given, [transformQuery] returns normally, and what it returns is the left
    fold of the plugins' query transforms over the node: every plugin ran, each
    on the previous one's output.  Spied plugins record the invocations: each
    registration index exactly once, in increasing order. *)
Theorem transformQuery_applies_plugins_in_order this node queryId w :
  Forall kind_preserving (plugins this) ->
  exists node' w',
    transformQuery this node queryId w = (Normal node', w') /\
    foldM (query_step queryId) (plugins this) node w = (Normal node', w') /\
    query_run queryId (plugins this) node w node' w' /\
    forall log,
      transformQuery_from (spied 0 (plugins this)) node queryId (raise w log) =
      (Normal node', raise w' (log ++ seq 0 (length (plugins this)))).
Proof.
  intros Hps.
  destruct (query_run_total queryId (plugins this) node w Hps) as (node' & w' & Hrun).
  exists node', w'. split_and!.
  - by apply query_run_returns.
  - by apply query_run_fold.
  - exact Hrun.
  - intros log. apply query_run_returns. by apply query_run_spied.
Qed.

(** C2. When the plugins before [plugin] ran and kept the kind, and [plugin]
    returns a node of another kind, [transformQuery] throws a new [Error] whose
    message names the kind given and the kind returned; the world is the one
    [plugin] left plus that error object, and spied plugins record no
    invocation beyond the offending one. *)
Theorem transformQuery_fails_on_kind_change
    this pre plugin post node queryId w node1 w1 node2 w2 :
  plugins this = (pre ++ plugin :: post)%list ->
  query_run queryId pre node w node1 w1 ->
  query_step queryId node1 plugin w1 = (Normal node2, w2) ->
  kind node2 <> kind node1 ->
  exists err w3,
    transformQuery this node queryId w = (Thrown (JObject err), w3) /\
    heap w2 !! err = None /\
    heap w3 =
      <[err := Error_object (kind_mismatch_message (kind node1) (kind node2))
                 (Error_stack w2 (kind_mismatch_message (kind node1) (kind node2)))]>
        (heap w2) /\
    Error_stack w3 = Error_stack w2 /\
    user w3 = user w2 /\
    member (JObject err) "message" w3 =
      JString ("KyselyPlugin.transformQuery must return a node of the same kind that was given to it. The plugin was given a "
               ++ kind node1 ++ " but it returned a " ++ kind node2) /\
    forall log,
      calls (snd (transformQuery_from (spied 0 (plugins this)) node queryId
                    (raise w log))) =
      (log ++ seq 0 (S (length pre)))%list.
Proof.
  intros Hps Hpre Hstep Hkind.
  eexists _, _. split.
  { unfold transformQuery. rewrite Hps, (query_run_prefix _ _ _ _ _ _ _ Hpre).
    exact (kind_violation_throws _ _ _ _ _ _ _ Hstep Hkind). }
  split; [apply fresh_loc_unused|].
  split; [reflexivity|]. split; [reflexivity|]. split; [reflexivity|].
  split.
  - unfold member, get_prop. cbn [set_heap heap].
    rewrite lookup_insert_eq, Error_object_message. reflexivity.
  - intros log. rewrite Hps. by eapply kind_violation_calls.
Qed.

(** C3. [#transformResult] is the left fold of the plugins' result transforms
    in registration order: it returns exactly when every plugin in turn
    returned, each on the previous one's output, whatever the results look
    like; spied plugins then record the indices in increasing order, as the
    query chain does. *)
Theorem transformResult_same_order this result queryId w :
  transformResult this result queryId w =
    foldM (result_step queryId) (plugins this) result w /\
  (forall result' w',
     transformResult this result queryId w = (Normal result', w') <->
     result_run queryId (plugins this) result w result' w') /\
  (forall result' w' log,
     transformResult this result queryId w = (Normal result', w') ->
     transformResult_from (spied 0 (plugins this)) result queryId (raise w log) =
     (Normal result', raise w' (log ++ seq 0 (length (plugins this))))).
Proof.
  split_and!.
  - apply transformResult_from_fold.
  - intros result' w'. symmetry. apply result_run_returns.
  - intros result' w' log Hrun.
    apply result_run_returns, result_run_spied, result_run_returns, Hrun.
Qed.

(** C4. The consumer [executeQuery] passes to [provideConnection] executes the
    compiled query on the connection and folds the result transforms over the
    raw result; [executeQuery] returns a value exactly when
    [provideConnection], given that consumer, produces it. *)
Theorem executeQuery_returns_provided_value this compiledQuery queryId :
  (forall connection w,
     executeQuery_consumer this compiledQuery queryId connection w =
     unit_of_work (plugins this) compiledQuery queryId connection w) /\
  (forall w v w',
     provideConnection this (executeQuery_consumer this compiledQuery queryId) w
       = (Normal v, w') <->
     executeQuery this compiledQuery queryId w = (Normal v, w')).
Proof.
  split; [intros; apply consumer_is_unit_of_work|].
  intros w v w'. unfold executeQuery, try_catch, bind.
  destruct (provideConnection this _ w) as [[v0|e] w0]; [done|].
  destruct (interception_throws (A:=QueryResult) e w0) as (e' & w2 & Hthrow).
  unfold bind in Hthrow. rewrite Hthrow. done.
Qed.

(** When the intercepted failure's [stack] can be written (or it holds none),
    a failure that comes out of [provideConnection] is thrown by
    [executeQuery] as the same value.  The runtime and user state are as the
    failure left them; every other object is untouched; the failure's own
    object keeps every property but [stack]; and when the failure holds no
    string [stack] the world is unchanged altogether.  Inside the unit of work
    nothing is caught either: a failure of the connection's execution, or of a
    plugin's result transform, is the failure of the unit of work. *)
Theorem executeQuery_rethrows_failure this compiledQuery queryId :
  (forall w e w1,
     provideConnection this (executeQuery_consumer this compiledQuery queryId) w
       = (Thrown e, w1) ->
     stack_writable e w1 ->
     exists w2,
       executeQuery this compiledQuery queryId w = (Thrown e, w2) /\
       Error_stack w2 = Error_stack w1 /\
       user w2 = user w1 /\
       (isStackHolder e w1 = false -> w2 = w1) /\
       (forall l o, heap w1 !! l = Some o -> JObject l <> e -> heap w2 !! l = Some o) /\
       (forall l o, e = JObject l -> heap w1 !! l = Some o ->
          exists o', heap w2 !! l = Some o' /\
                     forall prop, prop <> "stack" -> o' !! prop = o !! prop)) /\
  (forall connection w0 e w1,
     connection_executeQuery connection compiledQuery w0 = (Thrown e, w1) ->
     executeQuery_consumer this compiledQuery queryId connection w0 = (Thrown e, w1)) /\
  (forall connection w0 raw w1 pre plugin post result2 w2 e w3,
     connection_executeQuery connection compiledQuery w0 = (Normal raw, w1) ->
     plugins this = (pre ++ plugin :: post)%list ->
     result_run queryId pre raw w1 result2 w2 ->
     result_step queryId result2 plugin w2 = (Thrown e, w3) ->
     executeQuery_consumer this compiledQuery queryId connection w0 = (Thrown e, w3)).
Proof.
  split_and!.
  - intros w e w1 Hprov Hwritable.
    destruct (extendStackTrace_frame e w1 Hwritable) as (w2 & Hext & Hframe).
    exists w2. split; [|exact Hframe].
    unfold executeQuery, try_catch, bind. by rewrite Hprov, Hext.
  - intros. by apply consumer_execution_failure.
  - intros. by eapply consumer_plugin_failure.
Qed.

(** C5. On a failure whose [stack] cannot be written the claim fails on the
    code: where the runtime captures a trace, the assignment [err.stack += ...]
    throws, and what [executeQuery] throws is a new [TypeError] object, not
    the failure [provideConnection] threw.  The failure itself is left as it
    was. *)
Theorem executeQuery_replaces_unwritable_failure
    this compiledQuery queryId w l w1 o old captured :
  provideConnection this (executeQuery_consumer this compiledQuery queryId) w
    = (Thrown (JObject l), w1) ->
  heap w1 !! l = Some o ->
  o !! "stack" = Some (Property (JString old) false) ->
  Error_stack w1 "" = Some captured -> captured <> "" ->
  exists raised w2,
    executeQuery this compiledQuery queryId w = (Thrown (JObject raised), w2) /\
    raised <> l /\
    heap w1 !! raised = None /\
    member (JObject raised) "name" w2 = JString "TypeError" /\
    member (JObject raised) "message" w2 = JString (read_only_message "stack") /\
    heap w2 !! l = Some o.
Proof.
  intros Hprov Hl Hs Hcap Hne.
  pose proof (heap_with_stackError_lookup l o w1 Hl) as Hl1.
  assert (Hraised : heap_with_stackError w1 !! fresh_loc (heap_with_stackError w1) = None)
    by apply fresh_loc_unused.
  eexists _, _. split.
  { unfold executeQuery, try_catch, bind.
    by rewrite Hprov, (extendStackTrace_refused l o old captured w1 Hl Hs Hcap Hne). }
  split; [intros Heq; rewrite Heq in Hraised; congruence|].
  split.
  { destruct (heap w1 !! fresh_loc (heap_with_stackError w1)) as [o'|] eqn:Hfresh; [|done].
    by rewrite (heap_with_stackError_lookup _ o' w1 Hfresh) in Hraised. }
  unfold member, get_prop. cbn [set_heap heap]. rewrite lookup_insert_eq.
  split; [by rewrite lookup_insert_eq|].
  split.
  - rewrite lookup_insert_ne by done. by rewrite Error_object_message.
  - rewrite lookup_insert_ne; [exact Hl1|]. intros Heq. rewrite Heq in Hraised. congruence.
Qed.



(** C8. Each derivation, on a live receiver, returns a new instance and leaves
    the receiver and every other instance as they were; the new instance has
    the receiver's adapter, compiler and connection provisioning and the
    derived plugin sequence.  The constructor stores the sequence it is given
    and the getter reads it back. *)
Theorem derivations_leave_receiver_unchanged
    (σ : gmap loc (QueryExecutorBase U)) (receiver : loc) this plugin
    (ps : list (KyselyPlugin U)) :
  σ !! receiver = Some this ->
  Derivation.derived σ receiver (plugins this ++ [plugin])
    (Derivation.withPlugin receiver plugin σ) /\
  Derivation.derived σ receiver ps (Derivation.withPlugins receiver ps σ) /\
  Derivation.derived σ receiver (plugin :: plugins this)
    (Derivation.withPluginAtFront receiver plugin σ) /\
  Derivation.derived σ receiver [] (Derivation.withoutPlugins receiver σ) /\
  (forall adapter compileQuery provideConnection,
     plugins (new_QueryExecutorBase (Some ps) adapter compileQuery provideConnection) = ps).
Proof.
  intros Hthis. split_and!.
  - exact (derive_derived σ receiver this (fun ps => (ps ++ [plugin])%list) Hthis).
  - exact (derive_derived σ receiver this (fun _ => ps) Hthis).
  - exact (derive_derived σ receiver this (fun ps => plugin :: ps) Hthis).
  - exact (derive_derived σ receiver this (fun _ => []) Hthis).
  - reflexivity.
Qed.

(** C9. An executor constructed without plugins has the empty sequence, and
    both chains are then the identity: the node, the result and the world come
    back as they were. *)
Theorem no_plugins_identity adapter compileQuery provideConnection
    node result queryId w :
  plugins (new_QueryExecutorBase None adapter compileQuery provideConnection) = [] /\
  transformQuery (new_QueryExecutorBase None adapter compileQuery provideConnection)
    node queryId w = (Normal node, w) /\
  transformResult (new_QueryExecutorBase None adapter compileQuery provideConnection)
    result queryId w = (Normal result, w) /\
  transformQuery (new_QueryExecutorBase (Some []) adapter compileQuery provideConnection)
    node queryId w = (Normal node, w) /\
  transformResult (new_QueryExecutorBase (Some []) adapter compileQuery provideConnection)
    result queryId w = (Normal result, w).
Proof. by split_and!. Qed.

(** C10. Whatever the plugins, a node that [transformQuery] returns has the
    kind of the node it was called with. *)
Theorem transformQuery_preserves_kind this node queryId w node' w' :
  transformQuery this node queryId w = (Normal node', w') ->
  kind node' = kind node.
Proof.
  intros Hrun. eapply query_run_kind, returns_query_run, Hrun.
Qed.

End Claims.

(** * The claims on sample runs *)

Section Runs.
#[local] Existing Instance Sample.collaborators.
Import Sample.

Lemma boom_stack_writable : stack_writable (JObject 1%positive) world_with_stacks.
Proof.
  intros l o p [= <-] Hl Hs.
  vm_compute in Hl. injection Hl as <-.
  vm_compute in Hs. injection Hs as <-. reflexivity.
Defined.

Lemma Uppercase_kind_preserving : kind_preserving Uppercase.
Proof. intros node queryId w. eexists _, _. split; reflexivity. Defined.

Lemma AddLimit_kind_preserving : kind_preserving AddLimit.
Proof. intros node queryId w. eexists _, _. split; reflexivity. Defined.

Lemma transformQuery_applies_plugins_in_order_witness :
  exists node' w',
    transformQuery select_executor select_all "q1" empty_world = (Normal node', w') /\
    foldM (query_step "q1") (plugins select_executor) select_all empty_world
      = (Normal node', w') /\
    query_run "q1" (plugins select_executor) select_all empty_world node' w' /\
    forall log,
      transformQuery_from (spied 0 (plugins select_executor)) select_all "q1"
        (raise empty_world log) =
      (Normal node', raise w' (log ++ seq 0 (length (plugins select_executor)))).
Proof.
  apply (transformQuery_applies_plugins_in_order select_executor select_all "q1" empty_world).
  repeat constructor; [apply Uppercase_kind_preserving | apply AddLimit_kind_preserving].
Defined.

Lemma transformQuery_fails_on_kind_change_witness :
  exists err w3,
    transformQuery violating_executor update_node "q1" empty_world
      = (Thrown (JObject err), w3) /\
    heap empty_world !! err = None /\
    heap w3 =
      <[err := Error_object (kind_mismatch_message "UpdateQueryNode" "DeleteQueryNode")
                 (Error_stack empty_world
                    (kind_mismatch_message "UpdateQueryNode" "DeleteQueryNode"))]>
        (heap empty_world) /\
    Error_stack w3 = Error_stack empty_world /\
    user w3 = user empty_world /\
    member (JObject err) "message" w3 =
      JString ("KyselyPlugin.transformQuery must return a node of the same kind that was given to it. The plugin was given a "
               ++ "UpdateQueryNode" ++ " but it returned a " ++ "DeleteQueryNode") /\
    forall log,
      calls (snd (transformQuery_from (spied 0 (plugins violating_executor)) update_node
                    "q1" (raise empty_world log))) =
      (log ++ seq 0 (S (length [Uppercase])))%list.
Proof.
  apply (transformQuery_fails_on_kind_change violating_executor
           [Uppercase] ToDelete [AddLimit] update_node "q1" empty_world
           upper_update empty_world upper_delete empty_world).
  - reflexivity.
  - econstructor; [reflexivity | reflexivity | constructor].
  - reflexivity.
  - simpl. discriminate.
Defined.

Lemma transformResult_same_order_witness :
  transformResult_from (spied 0 (plugins select_executor)) [1; 2; 3]%Z "q1"
    (raise empty_world []) =
  (Normal [3; 5; 7]%Z, raise empty_world [0; 1]).
Proof.
  apply (proj2 (proj2 (transformResult_same_order select_executor [1; 2; 3]%Z "q1"
                         empty_world)) [3; 5; 7]%Z empty_world []).
  reflexivity.
Defined.

Lemma executeQuery_returns_provided_value_witness :
  executeQuery select_executor "select" "q1" empty_world = (Normal [3; 5; 7]%Z, empty_world).
Proof.
  apply (proj2 (executeQuery_returns_provided_value select_executor "select" "q1")).
  reflexivity.
Defined.

Lemma executeQuery_rethrows_failure_witness :
  exists w2,
    executeQuery failing_executor "select" "q1" world_with_stacks
      = (Thrown (JObject 1%positive), w2) /\
    Error_stack w2 = Error_stack world_with_stacks /\
    user w2 = user world_with_stacks /\
    (isStackHolder (JObject 1%positive) world_with_stacks = false -> w2 = world_with_stacks) /\
    (forall l o, heap world_with_stacks !! l = Some o -> JObject l <> JObject 1%positive ->
                 heap w2 !! l = Some o) /\
    (forall l o, JObject 1%positive = JObject l -> heap world_with_stacks !! l = Some o ->
       exists o', heap w2 !! l = Some o' /\
                  forall prop, prop <> "stack" -> o' !! prop = o !! prop).
Proof.
  apply (proj1 (executeQuery_rethrows_failure failing_executor "select" "q1")
           world_with_stacks (JObject 1%positive) world_with_stacks).
  - reflexivity.
  - apply boom_stack_writable.
Defined.

Lemma executeQuery_replaces_unwritable_failure_witness :
  exists raised w2,
    executeQuery failing_executor "select" "q1" world_with_frozen_failure
      = (Thrown (JObject raised), w2) /\
    raised <> 1%positive /\
    heap world_with_frozen_failure !! raised = None /\
    member (JObject raised) "name" w2 = JString "TypeError" /\
    member (JObject raised) "message" w2 = JString (read_only_message "stack") /\
    heap w2 !! 1%positive = Some frozen_boom.
Proof.
  apply (executeQuery_replaces_unwritable_failure failing_executor "select" "q1"
           world_with_frozen_failure 1%positive world_with_frozen_failure
           frozen_boom boom_stack observed_stack).
  - reflexivity.
  - vm_compute. reflexivity.
  - vm_compute. reflexivity.
  - reflexivity.
  - vm_compute. discriminate.
Defined.




Lemma derivations_leave_receiver_unchanged_witness :
  Derivation.derived {[ 1%positive := select_executor ]} 1%positive
    (plugins select_executor ++ [ToDelete])
    (Derivation.withPlugin 1%positive ToDelete {[ 1%positive := select_executor ]}) /\
  Derivation.derived {[ 1%positive := select_executor ]} 1%positive [ToDelete]
    (Derivation.withPlugins 1%positive [ToDelete] {[ 1%positive := select_executor ]}) /\
  Derivation.derived {[ 1%positive := select_executor ]} 1%positive
    (ToDelete :: plugins select_executor)
    (Derivation.withPluginAtFront 1%positive ToDelete {[ 1%positive := select_executor ]}) /\
  Derivation.derived {[ 1%positive := select_executor ]} 1%positive []
    (Derivation.withoutPlugins 1%positive {[ 1%positive := select_executor ]}) /\
  (forall adapter compileQuery provideConnection,
     plugins (new_QueryExecutorBase (U:=held) (Some [ToDelete]) adapter compileQuery
                provideConnection) = [ToDelete]).
Proof.
  apply (derivations_leave_receiver_unchanged {[ 1%positive := select_executor ]}
           1%positive select_executor ToDelete [ToDelete]).
  reflexivity.
Defined.

Lemma transformQuery_preserves_kind_witness :
  kind upper_limited_select = kind select_all.
Proof.
  apply (transformQuery_preserves_kind select_executor select_all "q1" empty_world
           upper_limited_select empty_world).
  reflexivity.
Defined.

End Runs.

(** * Further properties of the chains *)

Section StepFailure.
Context `{Collaborators} {U : Type}.

Lemma query_step_failure_throws queryId (plugin : KyselyPlugin U) rest node
    (w : world U) e w1 :
  query_step queryId node plugin w = (Thrown e, w1) ->
  transformQuery_from (plugin :: rest) node queryId w = (Thrown e, w1).
Proof. intros Hstep. by rewrite transformQuery_from_cons, Hstep. Qed.

Lemma result_step_failure_throws queryId (plugin : KyselyPlugin U) rest result
    (w : world U) e w1 :
  result_step queryId result plugin w = (Thrown e, w1) ->
  transformResult_from (plugin :: rest) result queryId w = (Thrown e, w1).
Proof.
  intros Hstep. simpl. unfold bind.
  fold (result_step queryId result plugin). by rewrite Hstep.
Qed.

End StepFailure.

Section ChainOutcomes.
Context `{Collaborators} {U : Type}.
Implicit Types (this : QueryExecutorBase U) (w : world U)
  (ps pre post : list (KyselyPlugin U)) (node : RootOperationNode).

(** A plugin whose query transform throws ends [transformQuery] with that very
    failure, in the world the plugin left: no error object is made, and
    spied plugins record no invocation after the failing one. *)
Theorem transformQuery_plugin_failure
    this pre plugin post node queryId w node1 w1 e w2 :
  plugins this = (pre ++ plugin :: post)%list ->
  query_run queryId pre node w node1 w1 ->
  query_step queryId node1 plugin w1 = (Thrown e, w2) ->
  transformQuery this node queryId w = (Thrown e, w2) /\
  forall log,
    transformQuery_from (spied 0 (plugins this)) node queryId (raise w log) =
    (Thrown e, raise w2 (log ++ seq 0 (S (length pre)))).
Proof.
  intros Hps Hpre Hstep. split.
  - unfold transformQuery. rewrite Hps, (query_run_prefix _ _ _ _ _ _ _ Hpre).
    by apply query_step_failure_throws.
  - intros log. rewrite Hps, spied_app. simpl spied.
    rewrite (query_run_prefix _ _ _ _ _ _ _ (query_run_spied _ _ _ _ _ _ Hpre 0 log)).
    erewrite query_step_failure_throws; [|exact (spy_outcome _ _ w1 _ _ _ Hstep)].
    by rewrite seq_S, app_assoc.
Qed.

(** The same for [#transformResult]: the failure of a plugin's result transform
    is the failure of the chain, and no later plugin is invoked. *)
Theorem transformResult_plugin_failure
    this pre plugin post result queryId w result1 w1 e w2 :
  plugins this = (pre ++ plugin :: post)%list ->
  result_run queryId pre result w result1 w1 ->
  result_step queryId result1 plugin w1 = (Thrown e, w2) ->
  transformResult this result queryId w = (Thrown e, w2) /\
  forall log,
    transformResult_from (spied 0 (plugins this)) result queryId (raise w log) =
    (Thrown e, raise w2 (log ++ seq 0 (S (length pre)))).
Proof.
  intros Hps Hpre Hstep. split.
  - unfold transformResult. rewrite Hps, (result_run_prefix _ _ _ _ _ _ _ Hpre).
    by apply result_step_failure_throws.
  - intros log. rewrite Hps, spied_app. simpl spied.
    rewrite (result_run_prefix _ _ _ _ _ _ _ (result_run_spied _ _ _ _ _ _ Hpre 0 log)).
    erewrite result_step_failure_throws; [|exact (spy_outcome _ _ w1 _ _ _ Hstep)].
    by rewrite seq_S, app_assoc.
Qed.

(** Running the plugins of two executors one after the other is running an
    executor that holds the first one's plugins followed by the second's: the
    second chain starts on the node the first returned, and a failure of the
    first is the failure of the whole. *)
Theorem transformQuery_chain_concat this first second node queryId w :
  plugins this = (plugins first ++ plugins second)%list ->
  transformQuery this node queryId w =
  (node' <- transformQuery first node queryId ;; transformQuery second node' queryId) w.
Proof.
  intros Hps. unfold transformQuery. rewrite Hps. clear Hps.
  generalize (plugins second) as ps2. intros ps2. revert node w.
  induction (plugins first) as [|plugin ps1 IH]; intros node w; [reflexivity|].
  change ((plugin :: ps1) ++ ps2)%list with (plugin :: (ps1 ++ ps2))%list.
  unfold bind at 1. rewrite !transformQuery_from_cons.
  destruct (query_step queryId node plugin w) as [[node1|e] w1]; [|reflexivity].
  destruct (String.eqb (kind node1) (kind node)); [|reflexivity].
  rewrite IH. reflexivity.
Qed.

Theorem transformResult_chain_concat this first second result queryId w :
  plugins this = (plugins first ++ plugins second)%list ->
  transformResult this result queryId w =
  (result' <- transformResult first result queryId ;;
   transformResult second result' queryId) w.
Proof.
  intros Hps. unfold transformResult. rewrite Hps. clear Hps.
  generalize (plugins second) as ps2. intros ps2. revert result w.
  induction (plugins first) as [|plugin ps1 IH]; intros result w; [reflexivity|].
  change ((plugin :: ps1) ++ ps2)%list with (plugin :: (ps1 ++ ps2))%list.
  simpl. unfold bind. fold (result_step queryId result plugin).
  destruct (result_step queryId result plugin w) as [[result1|e] w1]; [|reflexivity].
  rewrite IH. reflexivity.
Qed.

End ChainOutcomes.

Section ChainCases.
Context `{Collaborators} {U : Type}.
Implicit Types (this : QueryExecutorBase U) (w : world U)
  (ps pre post : list (KyselyPlugin U)) (node : RootOperationNode).

(** [transformQuery] ends in one of three ways, and no other: every plugin
    kept the kind and the last output is returned; or the first plugin to
    deviate threw, and that failure is thrown; or the first plugin to deviate
    returned a node of another kind, and a new [Error] is thrown from the
    world that plugin left. *)
Theorem transformQuery_outcomes this node queryId w :
  (exists node' w',
     query_run queryId (plugins this) node w node' w' /\
     transformQuery this node queryId w = (Normal node', w')) \/
  (exists pre plugin post node1 w1 e w2,
     plugins this = (pre ++ plugin :: post)%list /\
     query_run queryId pre node w node1 w1 /\
     query_step queryId node1 plugin w1 = (Thrown e, w2) /\
     transformQuery this node queryId w = (Thrown e, w2)) \/
  (exists pre plugin post node1 w1 node2 w2,
     plugins this = (pre ++ plugin :: post)%list /\
     query_run queryId pre node w node1 w1 /\
     query_step queryId node1 plugin w1 = (Normal node2, w2) /\
     kind node2 <> kind node1 /\
     transformQuery this node queryId w =
     (Thrown (JObject (fresh_loc (heap w2))),
      set_heap
        (<[fresh_loc (heap w2) :=
             Error_object (kind_mismatch_message (kind node1) (kind node2))
               (Error_stack w2 (kind_mismatch_message (kind node1) (kind node2)))]>
           (heap w2)) w2)).
Proof.
  unfold transformQuery. generalize (plugins this) as ps. intros ps. revert node w.
  induction ps as [|plugin ps IH]; intros node w.
  { left. exists node, w. split; [constructor | reflexivity]. }
  destruct (query_step queryId node plugin w) as [[node1|e] w1] eqn:Hstep.
  - destruct (String.eqb_spec (kind node1) (kind node)) as [Hkind|Hkind].
    + assert (Hhead : query_run queryId [plugin] node w node1 w1).
      { econstructor; [exact Hstep | exact Hkind | constructor]. }
      assert (Hcons : forall pre node2 w2,
                 query_run queryId pre node1 w1 node2 w2 ->
                 query_run queryId (plugin :: pre) node w node2 w2).
      { intros pre node2 w2 Hpre. econstructor; eauto. }
      rewrite (query_run_prefix queryId [plugin] ps _ _ _ _ Hhead
                 : transformQuery_from (plugin :: ps) node queryId w = _).
      destruct (IH node1 w1)
        as [(node' & w' & Hrun & Hret)
           |[(pre & p & post & n1 & v1 & e & v2 & -> & Hpre & Hp & Hret)
            |(pre & p & post & n1 & v1 & n2 & v2 & -> & Hpre & Hp & Hne & Hret)]].
      * left. exists node', w'. split; [by apply Hcons | exact Hret].
      * right. left. exists (plugin :: pre), p, post, n1, v1, e, v2.
        split_and!; [reflexivity | by apply Hcons | exact Hp | exact Hret].
      * right. right. exists (plugin :: pre), p, post, n1, v1, n2, v2.
        split_and!; [reflexivity | by apply Hcons | exact Hp | exact Hne | exact Hret].
    + right. right. exists [], plugin, ps, node, w, node1, w1.
      split_and!; [reflexivity | constructor | exact Hstep | exact Hkind |].
      by apply kind_violation_throws.
  - right. left. exists [], plugin, ps, node, w, e, w1.
    split_and!; [reflexivity | constructor | exact Hstep |].
    by apply query_step_failure_throws.
Qed.

(** [#transformResult] either returns the output of the last plugin, or throws
    the failure of the first plugin that threw; it throws nothing of its own. *)
Theorem transformResult_outcomes this result queryId w :
  (exists result' w',
     result_run queryId (plugins this) result w result' w' /\
     transformResult this result queryId w = (Normal result', w')) \/
  (exists pre plugin post result1 w1 e w2,
     plugins this = (pre ++ plugin :: post)%list /\
     result_run queryId pre result w result1 w1 /\
     result_step queryId result1 plugin w1 = (Thrown e, w2) /\
     transformResult this result queryId w = (Thrown e, w2)).
Proof.
  unfold transformResult. generalize (plugins this) as ps. intros ps. revert result w.
  induction ps as [|plugin ps IH]; intros result w.
  { left. exists result, w. split; [constructor | reflexivity]. }
  destruct (result_step queryId result plugin w) as [[result1|e] w1] eqn:Hstep.
  - assert (Hhead : result_run queryId [plugin] result w result1 w1).
    { econstructor; [exact Hstep | constructor]. }
    rewrite (result_run_prefix queryId [plugin] ps _ _ _ _ Hhead
               : transformResult_from (plugin :: ps) result queryId w = _).
    destruct (IH result1 w1)
      as [(result' & w' & Hrun & Hret)
         |(pre & p & post & r1 & v1 & e & v2 & -> & Hpre & Hp & Hret)].
    + left. exists result', w'. split; [econstructor; eauto | exact Hret].
    + right. exists (plugin :: pre), p, post, r1, v1, e, v2.
      split_and!; [reflexivity | econstructor; eauto | exact Hp | exact Hret].
  - right. exists [], plugin, ps, result, w, e, w1.
    split_and!; [reflexivity | constructor | exact Hstep |].
    by apply result_step_failure_throws.
Qed.

(** Whatever the plugins, when [transformQuery] returns, every plugin was
    invoked exactly once, in registration order. *)
Theorem transformQuery_return_ran_every_plugin this node queryId w node' w' :
  transformQuery this node queryId w = (Normal node', w') ->
  forall log,
    transformQuery_from (spied 0 (plugins this)) node queryId (raise w log) =
    (Normal node', raise w' (log ++ seq 0 (length (plugins this)))).
Proof.
  intros Hret log. by apply query_run_returns, query_run_spied, returns_query_run.
Qed.

(** The kind that the error names as given to the offending plugin is the
    kind of the node the caller passed to [transformQuery]. *)
Theorem transformQuery_names_callers_kind
    this pre plugin post node queryId w node1 w1 node2 w2 :
  plugins this = (pre ++ plugin :: post)%list ->
  query_run queryId pre node w node1 w1 ->
  query_step queryId node1 plugin w1 = (Normal node2, w2) ->
  kind node2 <> kind node1 ->
  exists err w3,
    transformQuery this node queryId w = (Thrown (JObject err), w3) /\
    member (JObject err) "message" w3 =
    JString (kind_mismatch_message (kind node) (kind node2)).
Proof.
  intros Hps Hpre Hstep Hkind. eexists _, _. split.
  - unfold transformQuery. rewrite Hps, (query_run_prefix _ _ _ _ _ _ _ Hpre).
    exact (kind_violation_throws _ _ _ _ _ _ _ Hstep Hkind).
  - unfold member, get_prop. cbn [set_heap heap].
    rewrite lookup_insert_eq, Error_object_message.
    by rewrite (query_run_kind _ _ _ _ _ _ Hpre).
Qed.

End ChainCases.

(** * Further properties of the identifier and of stack continuity *)

Section IdentifierFacts.
Context `{Collaborators} {U : Type}.
Implicit Types (ps : list (KyselyPlugin U)) (w : world U)
  (seen : list (nat * QueryId)).

Lemma lower_raise_ids w seen : lower_ids (raise_ids w seen) = w.
Proof. by destruct w. Qed.

Lemma recorded_query_ids ps node queryId w seen j :
  exists k,
    k <= length ps /\
    seen_ids (snd (transformQuery_from (recorded j ps) node queryId (raise_ids w seen)))
    = (seen ++ ((fun i => (i, queryId)) <$> seq j k))%list.
Proof.
  revert node w seen j. induction ps as [|plugin ps IH]; intros node w seen j.
  { exists 0. split; [done|]. simpl. by rewrite app_nil_r. }
  cbn [recorded]. rewrite transformQuery_from_cons.
  unfold query_step at 1. cbn [recording plugin_transformQuery tq_queryId].
  unfold record_id. rewrite lower_raise_ids.
  fold (query_step queryId node plugin).
  destruct (query_step queryId node plugin w) as [[node1|e] w1].
  - destruct (String.eqb (kind node1) (kind node)).
    + destruct (IH node1 w1 (seen ++ [(j, queryId)])%list (S j)) as (k & Hk & Hseen).
      exists (S k). split; [simpl; lia|].
      cbn [seen_ids raise_ids user snd] in *. rewrite Hseen.
      by rewrite <- app_assoc.
    + exists 1. split; [simpl; lia | reflexivity].
  - exists 1. split; [simpl; lia | reflexivity].
Qed.

Lemma recorded_result_ids ps result queryId w seen j :
  exists k,
    k <= length ps /\
    seen_ids (snd (transformResult_from (recorded j ps) result queryId (raise_ids w seen)))
    = (seen ++ ((fun i => (i, queryId)) <$> seq j k))%list.
Proof.
  revert result w seen j. induction ps as [|plugin ps IH]; intros result w seen j.
  { exists 0. split; [done|]. simpl. by rewrite app_nil_r. }
  cbn [recorded]. simpl transformResult_from. unfold bind.
  cbn [recording plugin_transformResult tr_queryId].
  unfold record_id. rewrite lower_raise_ids.
  fold (result_step queryId result plugin).
  destruct (result_step queryId result plugin w) as [[result1|e] w1].
  - destruct (IH result1 w1 (seen ++ [(j, queryId)])%list (S j)) as (k & Hk & Hseen).
    exists (S k). split; [simpl; lia|].
    cbn [seen_ids raise_ids user snd] in *. rewrite Hseen.
    by rewrite <- app_assoc.
  - exists 1. split; [simpl; lia | reflexivity].
Qed.

(** Every plugin invocation, in either chain, is handed the query identifier
    the chain was called with.  Plugins that record their registration index
    and the identifier they see record the indices [0], [1], ... up to where
    the chain stopped, each once and in that order, every one paired with the
    caller's identifier. *)
Theorem plugins_receive_the_queryId (this : QueryExecutorBase U)
    node result queryId w seen :
  (exists k,
     k <= length (plugins this) /\
     seen_ids (snd (transformQuery_from (recorded 0 (plugins this)) node queryId
                      (raise_ids w seen)))
     = (seen ++ ((fun i => (i, queryId)) <$> seq 0 k))%list) /\
  (exists k,
     k <= length (plugins this) /\
     seen_ids (snd (transformResult_from (recorded 0 (plugins this)) result queryId
                      (raise_ids w seen)))
     = (seen ++ ((fun i => (i, queryId)) <$> seq 0 k))%list).
Proof. split; [apply recorded_query_ids | apply recorded_result_ids]. Qed.

End IdentifierFacts.

Lemma split_parts_atomic (sep : ascii) (s : string) :
  Forall (fun part => split sep part = [part]) (split sep s).
Proof.
  induction s as [|c s IH]; simpl; [by constructor|].
  destruct (Ascii.eqb c sep) eqn:Hc; [by constructor|].
  pose proof (split_nonempty sep s) as Hne.
  destruct (split sep s) as [|first others]; [done|].
  inversion IH as [|? ? Hfirst Hothers]; subst.
  constructor; [|done]. simpl. by rewrite Hc, Hfirst.
Qed.

Lemma split_join (sep : ascii) (parts : list string) :
  parts <> [] ->
  Forall (fun part => split sep part = [part]) parts ->
  split sep (join (String sep EmptyString) parts) = parts.
Proof.
  intros Hne Hparts. induction Hparts as [|part rest Hpart Hrest IH]; [done|].
  destruct rest as [|second rest]; [exact Hpart|].
  change (join (String sep EmptyString) (part :: second :: rest))
    with (part ++ String sep (join (String sep EmptyString) (second :: rest))).
  rewrite split_app_sep, Hpart, IH by done. reflexivity.
Qed.

Lemma line_count_stack_extension (captured : string) :
  line_count (stack_extension captured) = Nat.max 1 (line_count captured - 1).
Proof.
  unfold stack_extension, line_count, slice1.
  pose proof (split_parts_atomic newline captured) as Hparts.
  pose proof (split_nonempty newline captured) as Hne.
  destruct (split newline captured) as [|first rest]; [done|].
  inversion Hparts as [|? ? _ Hrest]; subst. cbn [drop].
  destruct rest as [|second rest]; [reflexivity|].
  unfold nl. rewrite split_join by done. simpl. lia.
Qed.

Section StackExtras.
Context `{Collaborators} {U : Type}.
Implicit Types (this : QueryExecutorBase U) (w : world U) (l : loc).

(** The number of lines an interception adds to a trace that can be written:
    the lines of the captured trace but its first, and one empty line when the
    captured trace is a single line, in which case only a newline is
    appended. *)
Theorem executeQuery_trace_line_count this compiledQuery queryId w l w1 old captured :
  provideConnection this (executeQuery_consumer this compiledQuery queryId) w
    = (Thrown (JObject l), w1) ->
  member (JObject l) "stack" w1 = JString old ->
  stack_writable (JObject l) w1 ->
  Error_stack w1 "" = Some captured ->
  captured <> "" ->
  exists w2 new,
    executeQuery this compiledQuery queryId w = (Thrown (JObject l), w2) /\
    member (JObject l) "stack" w2 = JString new /\
    line_count new = line_count old + Nat.max 1 (line_count captured - 1) /\
    (line_count captured = 1 -> new = old ++ nl).
Proof.
  intros Hprov Hold Hwritable Hcap Hne.
  destruct (extendStackTrace_extends l old captured w1 Hold Hwritable Hcap Hne)
    as (w2 & Hext & Hnew & _).
  exists w2, (old ++ nl ++ stack_extension captured). split_and!.
  - unfold executeQuery, try_catch, bind. by rewrite Hprov, Hext.
  - exact Hnew.
  - by rewrite line_count_append, line_count_stack_extension.
  - unfold line_count, stack_extension, slice1. intros Hone.
    destruct (split newline captured) as [|first [|second rest]]; try done.
Qed.

(** A failure that no string [stack] can be read from, be it a thrown
    primitive or an object without such a property, leaves [executeQuery] as
    it left [provideConnection], the world included. *)
Theorem executeQuery_passes_untraced_failure this compiledQuery queryId w e w1 :
  provideConnection this (executeQuery_consumer this compiledQuery queryId) w
    = (Thrown e, w1) ->
  (forall old, member e "stack" w1 <> JString old) ->
  executeQuery this compiledQuery queryId w = (Thrown e, w1).
Proof.
  intros Hprov Hnone.
  assert (Hholder : isStackHolder e w1 = false).
  { unfold isStackHolder. destruct (member e "stack" w1) as [| | | |old|] eqn:Hm;
      try (by rewrite andb_false_r). by destruct (Hnone old). }
  unfold executeQuery, try_catch, bind.
  by rewrite Hprov, (extendStackTrace_other e w1 Hholder).
Qed.

End StackExtras.

Section Interceptions.
Context {U : Type}.
Implicit Types (w : world U) (l : loc).

(** An intercepted failure still holds a string [stack], as writable as it
    was, so a later interception extends it again, with whatever the runtime
    captures then: after two interceptions the trace is the original one
    followed by both extensions.  Between the two, anything may happen to the
    world but to the failure's own object. *)
Theorem extendStackTrace_twice l old captured captured' w w' :
  member (JObject l) "stack" w = JString old ->
  stack_writable (JObject l) w ->
  Error_stack w "" = Some captured -> captured <> "" ->
  heap w' !! l = heap (snd (extendStackTrace (JObject l) w)) !! l ->
  Error_stack w' "" = Some captured' -> captured' <> "" ->
  exists w2 w3,
    extendStackTrace (JObject l) w = (Normal (JObject l), w2) /\
    isStackHolder (JObject l) w2 = true /\
    stack_writable (JObject l) w2 /\
    extendStackTrace (JObject l) w' = (Normal (JObject l), w3) /\
    member (JObject l) "stack" w3 =
    JString ((old ++ nl ++ stack_extension captured) ++ nl ++ stack_extension captured').
Proof.
  intros Hold Hwritable Hcap Hne Hsame Hcap' Hne'.
  destruct (extendStackTrace_extends l old captured w Hold Hwritable Hcap Hne)
    as (w2 & Hext & Hnew & Hwritable2).
  rewrite Hext in Hsame. cbn [snd] in Hsame.
  assert (Hnew' : member (JObject l) "stack" w' =
                  JString (old ++ nl ++ stack_extension captured)).
  { rewrite <- Hnew. unfold member, get_prop. by rewrite Hsame. }
  assert (Hwritable' : stack_writable (JObject l) w').
  { intros l0 o p [= <-] Hl. rewrite Hsame in Hl. by apply (Hwritable2 l o p). }
  destruct (extendStackTrace_extends l _ captured' w' Hnew' Hwritable' Hcap' Hne')
    as (w3 & Hext3 & Hnew3 & _).
  exists w2, w3. split_and!; [exact Hext | | exact Hwritable2 | exact Hext3 | exact Hnew3].
  unfold isStackHolder. by rewrite Hnew.
Qed.

End Interceptions.

(** * The further properties on sample runs *)

Section FurtherRuns.
#[local] Existing Instance Sample.collaborators.
Import Sample.

Lemma transformQuery_plugin_failure_witness :
  transformQuery plugin_failure_executor select_all "q1" empty_world
    = (Thrown (JString "plugin failed"), empty_world) /\
  forall log,
    transformQuery_from (spied 0 (plugins plugin_failure_executor)) select_all "q1"
      (raise empty_world log) =
    (Thrown (JString "plugin failed"),
     raise empty_world (log ++ seq 0 (S (length [Uppercase])))).
Proof.
  apply (transformQuery_plugin_failure plugin_failure_executor
           [Uppercase] Failing [AddLimit] select_all "q1" empty_world
           upper_select empty_world (JString "plugin failed") empty_world).
  - reflexivity.
  - econstructor; [reflexivity | reflexivity | constructor].
  - reflexivity.
Defined.

Lemma transformResult_plugin_failure_witness :
  transformResult plugin_failure_executor [1; 2; 3]%Z "q1" empty_world
    = (Thrown (JString "plugin failed"), empty_world) /\
  forall log,
    transformResult_from (spied 0 (plugins plugin_failure_executor)) [1; 2; 3]%Z "q1"
      (raise empty_world log) =
    (Thrown (JString "plugin failed"),
     raise empty_world (log ++ seq 0 (S (length [Uppercase])))).
Proof.
  apply (transformResult_plugin_failure plugin_failure_executor
           [Uppercase] Failing [AddLimit] [1; 2; 3]%Z "q1" empty_world
           [2; 4; 6]%Z empty_world (JString "plugin failed") empty_world).
  - reflexivity.
  - econstructor; [reflexivity | constructor].
  - reflexivity.
Defined.

Lemma transformQuery_chain_concat_witness :
  transformQuery select_executor select_all "q1" empty_world =
  (node' <- transformQuery uppercase_executor select_all "q1" ;;
   transformQuery limit_executor node' "q1") empty_world.
Proof.
  apply (transformQuery_chain_concat select_executor uppercase_executor limit_executor
           select_all "q1" empty_world).
  reflexivity.
Defined.

Lemma transformResult_chain_concat_witness :
  transformResult select_executor [1; 2; 3]%Z "q1" empty_world =
  (result' <- transformResult uppercase_executor [1; 2; 3]%Z "q1" ;;
   transformResult limit_executor result' "q1") empty_world.
Proof.
  apply (transformResult_chain_concat select_executor uppercase_executor limit_executor
           [1; 2; 3]%Z "q1" empty_world).
  reflexivity.
Defined.

Lemma transformQuery_return_ran_every_plugin_witness :
  transformQuery_from (spied 0 (plugins select_executor)) select_all "q1"
    (raise empty_world []) =
  (Normal upper_limited_select, raise empty_world [0; 1]).
Proof.
  apply (transformQuery_return_ran_every_plugin select_executor select_all "q1"
           empty_world upper_limited_select empty_world).
  reflexivity.
Defined.

Lemma transformQuery_names_callers_kind_witness :
  exists err w3,
    transformQuery violating_executor update_node "q1" empty_world
      = (Thrown (JObject err), w3) /\
    member (JObject err) "message" w3 =
    JString (kind_mismatch_message (kind update_node) (kind upper_delete)).
Proof.
  apply (transformQuery_names_callers_kind violating_executor
           [Uppercase] ToDelete [AddLimit] update_node "q1" empty_world
           upper_update empty_world upper_delete empty_world).
  - reflexivity.
  - econstructor; [reflexivity | reflexivity | constructor].
  - reflexivity.
  - simpl. discriminate.
Defined.

Lemma executeQuery_trace_line_count_witness :
  exists w2 new,
    executeQuery failing_executor "select" "q1" world_with_stacks
      = (Thrown (JObject 1%positive), w2) /\
    member (JObject 1%positive) "stack" w2 = JString new /\
    line_count new = line_count boom_stack + Nat.max 1 (line_count observed_stack - 1) /\
    (line_count observed_stack = 1 -> new = boom_stack ++ nl).
Proof.
  apply (executeQuery_trace_line_count failing_executor "select" "q1" world_with_stacks
           1%positive world_with_stacks boom_stack observed_stack).
  - reflexivity.
  - vm_compute. reflexivity.
  - apply boom_stack_writable.
  - reflexivity.
  - vm_compute. discriminate.
Defined.

Lemma executeQuery_passes_untraced_failure_witness :
  executeQuery timeout_executor "select" "q1" empty_world
    = (Thrown (JString "timeout"), empty_world).
Proof.
  apply (executeQuery_passes_untraced_failure timeout_executor "select" "q1" empty_world
           (JString "timeout") empty_world).
  - reflexivity.
  - intros old. simpl. discriminate.
Defined.

Lemma extendStackTrace_twice_witness :
  exists w2 w3,
    extendStackTrace (JObject 1%positive) world_with_stacks
      = (Normal (JObject 1%positive), w2) /\
    isStackHolder (JObject 1%positive) w2 = true /\
    stack_writable (JObject 1%positive) w2 /\
    extendStackTrace (JObject 1%positive) world_later
      = (Normal (JObject 1%positive), w3) /\
    member (JObject 1%positive) "stack" w3 =
    JString ((boom_stack ++ nl ++ stack_extension observed_stack)
             ++ nl ++ stack_extension later_stack).
Proof.
  apply (extendStackTrace_twice 1%positive boom_stack observed_stack later_stack
           world_with_stacks world_later).
  - vm_compute. reflexivity.
  - apply boom_stack_writable.
  - reflexivity.
  - vm_compute. discriminate.
  - reflexivity.
  - reflexivity.
  - vm_compute. discriminate.
Defined.

End FurtherRuns.
